(** * Temporary voice channel controller

    A shallow embedding of
    [src/tux/database/controllers/temporary_voice_channel.py]: the five
    coroutines of [TemporaryVoiceChannelController] over a table of
    [TemporaryVoiceChannel] rows, run in a state-and-exception monad that
    threads the database and the wall clock. *)

From Stdlib Require Import ZArith List Bool Lia.
Import ListNotations.
Open Scope Z_scope.

(** ** The entity *)

(** An instant, in microseconds since the epoch, UTC (the resolution of
    Python's [datetime]); the year-9999 ceiling of [datetime] is outside
    this model. *)
Definition datetime := Z.

(** [timedelta(minutes=m)] in microseconds. *)
Definition timedelta_minutes (m : Z) : Z := m * 60 * 1000000.

(** Modelled from the spec: the [TemporaryVoiceChannel] model class
    ([tux.database.models]) is imported by the controller; its four columns
    are those of the data model, the first two forming the composite
    primary key. *)
Record TemporaryVoiceChannel : Type := mkTemporaryVoiceChannel {
  guild_id : Z;
  voice_channel_id : Z;
  owner_id : Z;
  owner_left_time : option datetime
}.

Definition primary_key (r : TemporaryVoiceChannel) : Z * Z :=
  (guild_id r, voice_channel_id r).

Definition key_eqb (k1 k2 : Z * Z) : bool :=
  (fst k1 =? fst k2) && (snd k1 =? snd k2).

(** One keyword argument [column=value] of [create] or [update_by_id]. *)
Inductive column_value : Type :=
| Set_guild_id (v : Z)
| Set_voice_channel_id (v : Z)
| Set_owner_id (v : Z)
| Set_owner_left_time (v : option datetime).

Definition setattr (r : TemporaryVoiceChannel) (a : column_value)
  : TemporaryVoiceChannel :=
  match a with
  | Set_guild_id v =>
      mkTemporaryVoiceChannel v (voice_channel_id r) (owner_id r) (owner_left_time r)
  | Set_voice_channel_id v =>
      mkTemporaryVoiceChannel (guild_id r) v (owner_id r) (owner_left_time r)
  | Set_owner_id v =>
      mkTemporaryVoiceChannel (guild_id r) (voice_channel_id r) v (owner_left_time r)
  | Set_owner_left_time v =>
      mkTemporaryVoiceChannel (guild_id r) (voice_channel_id r) (owner_id r) v
  end.

Definition setattrs (values : list column_value) (r : TemporaryVoiceChannel)
  : TemporaryVoiceChannel :=
  fold_left setattr values r.

(** ** The world the coroutines run in *)

Record World : Type := mkWorld {
  table : list TemporaryVoiceChannel;  (* rows, in storage order *)
  clock : datetime                     (* what [datetime.now(UTC)] reads *)
}.

Definition with_table (w : World) (t : list TemporaryVoiceChannel) : World :=
  mkWorld t (clock w).

Inductive exn : Type :=
| IntegrityError.   (* the store's uniqueness constraint was violated *)

Inductive result (A : Type) : Type :=
| Ok (a : A)
| Raise (e : exn).
Arguments Ok {A} a.
Arguments Raise {A} e.

(** A coroutine awaited to completion: it reads and writes the world and
    either returns a value or lets an exception propagate. *)
Definition Db (A : Type) : Type := World -> result (A * World).

Definition ret {A} (a : A) : Db A := fun w => Ok (a, w).

Definition bind {A B} (m : Db A) (k : A -> Db B) : Db B :=
  fun w => match m w with
           | Ok (a, w') => k a w'
           | Raise e => Raise e
           end.

Notation "x <- m ;; k" := (bind m (fun x => k))
  (at level 61, m at next level, right associativity).

Definition datetime_now : Db datetime := fun w => Ok (clock w, w).

(** ** The storage primitives of [BaseController] *)

Module BaseController.

(** [session.get(model, key)]: the row stored under a primary key. *)
Definition get_by_key (key : Z * Z) (t : list TemporaryVoiceChannel)
  : option TemporaryVoiceChannel :=
  find (fun r => key_eqb (primary_key r) key) t.

(** Modelled from the spec: [BaseController.find_one(filters)] is not among
    the sources; it returns the first stored row that satisfies the filter
    predicate, or absent, and writes nothing. *)
Definition find_one (filters : TemporaryVoiceChannel -> bool)
  : Db (option TemporaryVoiceChannel) :=
  fun w => Ok (find filters (table w), w).

(** Modelled from the spec: [BaseController.create], called with keyword
    arguments, is not among the sources; it builds a row from them, every
    column not given being null (zero for an identifier), and inserts it;
    the store's uniqueness constraint on the composite key rejects a second
    row under a key already in use, and that failure propagates. *)
Definition create (values : list column_value) : Db TemporaryVoiceChannel :=
  fun w =>
    let r := setattrs values (mkTemporaryVoiceChannel 0 0 0 None) in
    match get_by_key (primary_key r) (table w) with
    | Some _ => Raise IntegrityError
    | None => Ok (r, with_table w (table w ++ [r]))
    end.

(** Modelled from the spec: [BaseController.update_by_id], called with a
    key and keyword arguments, is not among the sources; it assigns the
    given columns on the row stored under [key] and returns the updated
    row, or returns absent, writing nothing, when no row is stored under
    [key]. *)
Definition update_by_id (key : Z * Z) (values : list column_value)
  : Db (option TemporaryVoiceChannel) :=
  fun w =>
    match get_by_key key (table w) with
    | None => Ok (None, w)
    | Some r =>
        let t' := map (fun x => if key_eqb (primary_key x) key
                                then setattrs values x else x) (table w) in
        Ok (Some (setattrs values r), with_table w t')
    end.

(** Modelled from the spec: [BaseController.delete_by_id(key)] is not among
    the sources; it removes what is stored under [key] and returns true, or
    returns false, writing nothing, when no row is stored under [key]. *)
Definition delete_by_id (key : Z * Z) : Db bool :=
  fun w =>
    match get_by_key key (table w) with
    | None => Ok (false, w)
    | Some _ =>
        Ok (true,
            with_table w
              (filter (fun x => negb (key_eqb (primary_key x) key)) (table w)))
    end.

End BaseController.

(** ** [TemporaryVoiceChannelController] *)

Import BaseController.

(** [(TemporaryVoiceChannel.guild_id == guild_id) &
     (TemporaryVoiceChannel.voice_channel_id == channel_id)] *)
Definition by_id_filter (guild_id' channel_id : Z) (r : TemporaryVoiceChannel)
  : bool :=
  (guild_id r =? guild_id') && (voice_channel_id r =? channel_id).

(** [TemporaryVoiceChannel.owner_id == user_id] *)
Definition by_owner_filter (user_id : Z) (r : TemporaryVoiceChannel) : bool :=
  owner_id r =? user_id.

Definition get_temporary_voice_channel_by_id (guild_id' channel_id : Z)
  : Db (option TemporaryVoiceChannel) :=
  find_one (by_id_filter guild_id' channel_id).

Definition get_temporary_voice_channel_by_owner_id (user_id : Z)
  : Db (option TemporaryVoiceChannel) :=
  find_one (by_owner_filter user_id).

Definition get_or_create_temporary_voice_channel
  (guild_id' voice_channel_id' owner_id' : Z) : Db TemporaryVoiceChannel :=
  temporary_voice_channel <-
    get_temporary_voice_channel_by_id guild_id' voice_channel_id' ;;
  match temporary_voice_channel with
  | Some found => ret found
  | None =>
      create [Set_guild_id guild_id';
              Set_voice_channel_id voice_channel_id';
              Set_owner_id owner_id']
  end.

Definition delete_temporary_voice_channel (guild_id' channel_id : Z) : Db bool :=
  voice_channel <- get_temporary_voice_channel_by_id guild_id' channel_id ;;
  match voice_channel with
  | None => ret false
  | Some _ => delete_by_id (guild_id', channel_id)
  end.

Definition handle_owner_left_time (guild_id' channel_id : Z) (owner_left : bool)
  : Db (option TemporaryVoiceChannel) :=
  if owner_left then
    now <- datetime_now ;;
    update_by_id (guild_id', channel_id)
      [Set_owner_left_time (Some (now + timedelta_minutes 5))]
  else
    update_by_id (guild_id', channel_id) [Set_owner_left_time None].

(** ** Sequences of calls *)

(** What a caller may do next: one of the five calls, or let time pass. *)
Inductive request : Type :=
| GetOrCreate (g v o : Z)
| GetById (g c : Z)
| GetByOwnerId (u : Z)
| Delete (g c : Z)
| OwnerLeft (g c : Z) (owner_left : bool)
| Tick (now : datetime).

Definition after {A} (m : Db A) (w : World) : result World :=
  match m w with
  | Ok (_, w') => Ok w'
  | Raise e => Raise e
  end.

Definition serve (q : request) : World -> result World :=
  match q with
  | GetOrCreate g v o => after (get_or_create_temporary_voice_channel g v o)
  | GetById g c => after (get_temporary_voice_channel_by_id g c)
  | GetByOwnerId u => after (get_temporary_voice_channel_by_owner_id u)
  | Delete g c => after (delete_temporary_voice_channel g c)
  | OwnerLeft g c b => after (handle_owner_left_time g c b)
  | Tick now => fun w => Ok (mkWorld (table w) now)
  end.

Fixpoint serve_all (qs : list request) (w : World) : result World :=
  match qs with
  | [] => Ok w
  | q :: qs' =>
      match serve q w with
      | Ok w' => serve_all qs' w'
      | Raise e => Raise e
      end
  end.

(** [creates g c q]: the request is a get-or-create for the key [(g, c)]. *)
Definition creates (g c : Z) (q : request) : bool :=
  match q with
  | GetOrCreate g' v' _ => (g' =? g) && (v' =? c)
  | _ => false
  end.

Definition empty_store (now : datetime) : World := mkWorld [] now.

(** ** Properties of a store *)

(** [r] is a stored record whose composite key is [(g, c)]. *)
Definition record_at (w : World) (g c : Z) (r : TemporaryVoiceChannel) : Prop :=
  In r (table w) /\ guild_id r = g /\ voice_channel_id r = c.

Definition no_record_at (w : World) (g c : Z) : Prop :=
  forall r, ~ record_at w g c r.

(** How many stored records have the composite key [(g, c)]. *)
Definition count_at (g c : Z) (w : World) : nat :=
  length (filter (by_id_filter g c) (table w)).

(** At most one record exists per [(guild_id, voice_channel_id)] pair. *)
Definition unique_keys (w : World) : Prop :=
  forall g c, (count_at g c w <= 1)%nat.

(** The invariant in a form that computes on a given table. *)
Fixpoint keys_distinct (t : list TemporaryVoiceChannel) : bool :=
  match t with
  | [] => true
  | x :: t' =>
      negb (existsb (fun y => key_eqb (primary_key y) (primary_key x)) t')
      && keys_distinct t'
  end.

(** What [handle_owner_left_time g c _] may do to one stored row. *)
Definition only_left_time_at (g c : Z) (x x' : TemporaryVoiceChannel) : Prop :=
  guild_id x' = guild_id x
  /\ voice_channel_id x' = voice_channel_id x
  /\ owner_id x' = owner_id x
  /\ (primary_key x <> (g, c) -> x' = x).

(** ** The writes, row by row *)

(** The row [create] builds from the three keyword arguments. *)
Definition fresh_row (g v o : Z) : TemporaryVoiceChannel :=
  mkTemporaryVoiceChannel g v o None.

(** The row-wise effect of [update_by_id (g, c)] with [owner_left_time=t]. *)
Definition stamp (g c : Z) (t : option datetime) (x : TemporaryVoiceChannel)
  : TemporaryVoiceChannel :=
  if by_id_filter g c x then setattr x (Set_owner_left_time t) else x.

(** The value [handle_owner_left_time] passes as [owner_left_time]. *)
Definition left_time (w : World) (owner_left : bool) : option datetime :=
  if owner_left then Some (clock w + timedelta_minutes 5) else None.

(** Unfolds a call down to the lookups on the table. *)
Ltac unfold_db :=
  cbv [get_or_create_temporary_voice_channel get_temporary_voice_channel_by_id
       get_temporary_voice_channel_by_owner_id delete_temporary_voice_channel
       handle_owner_left_time find_one create update_by_id delete_by_id
       datetime_now bind ret after].

(** ** Sample stores and runs *)

Definition sample_row : TemporaryVoiceChannel :=
  mkTemporaryVoiceChannel 1 100 42 None.

Definition sample_store : World :=
  mkWorld [sample_row;
           mkTemporaryVoiceChannel 1 200 42 (Some 1699999999000000);
           mkTemporaryVoiceChannel 2 100 7 None]
          1700000000000000.

(** A run that creates, stamps and deletes other keys, and never [(1, 100)]. *)
Definition sample_requests : list request :=
  [GetOrCreate 1 200 42; GetOrCreate 2 100 7; OwnerLeft 1 200 true;
   Tick 5; GetOrCreate 1 200 9; Delete 2 100; GetById 1 100].

(** ** Filters and lookups *)

Section Lookup.

Variable f : TemporaryVoiceChannel -> bool.

Lemma find_absent (t : list TemporaryVoiceChannel) :
  (forall x, In x t -> f x = false) -> find f t = None.
Proof.
  induction t as [|x t IH]; intros H; [reflexivity|].
  cbn. rewrite (H x (or_introl eq_refl)).
  apply IH. intros y Hy. apply H. now right.
Qed.

Lemma find_present (t : list TemporaryVoiceChannel) (r : TemporaryVoiceChannel) :
  In r t -> f r = true -> exists r', find f t = Some r' /\ In r' t /\ f r' = true.
Proof.
  intros Hin Hf.
  destruct (find f t) as [r'|] eqn:E.
  - exists r'. apply find_some in E. tauto.
  - apply find_none with (x := r) in E; congruence.
Qed.

Lemma filter_nil_length (t : list TemporaryVoiceChannel) :
  length (filter f t) = 0%nat -> forall x, In x t -> f x = false.
Proof.
  intros H x Hx. destruct (f x) eqn:E; [|reflexivity].
  assert (Hin : In x (filter f t)) by (apply filter_In; auto).
  destruct (filter f t); [contradiction | discriminate].
Qed.

(** With at most one row passing the filter, the lookup finds exactly it. *)
Lemma find_the_one (t : list TemporaryVoiceChannel) (r : TemporaryVoiceChannel) :
  (length (filter f t) <= 1)%nat -> In r t -> f r = true -> find f t = Some r.
Proof.
  induction t as [|x t IH]; intros Hlen Hin Hf; [contradiction|].
  cbn in *. destruct (f x) eqn:E.
  - cbn in Hlen. destruct Hin as [->|Hin]; [reflexivity|].
    assert (H0 : length (filter f t) = 0%nat) by lia.
    rewrite (filter_nil_length t H0 r Hin) in Hf. discriminate.
  - destruct Hin as [->|Hin]; [congruence|]. now apply IH.
Qed.

Lemma filter_app_one (t : list TemporaryVoiceChannel) (r : TemporaryVoiceChannel) :
  length (filter f (t ++ [r]))
  = (length (filter f t) + (if f r then 1 else 0))%nat.
Proof.
  rewrite filter_app, length_app. cbn. now destruct (f r).
Qed.

Lemma filter_filter_le (p : TemporaryVoiceChannel -> bool)
      (t : list TemporaryVoiceChannel) :
  (length (filter f (filter p t)) <= length (filter f t))%nat.
Proof.
  induction t as [|x t IH]; [reflexivity|].
  cbn. destruct (p x), (f x) eqn:E; cbn; rewrite ?E; cbn; lia.
Qed.

Lemma filter_map_stable (u : TemporaryVoiceChannel -> TemporaryVoiceChannel)
      (t : list TemporaryVoiceChannel) :
  (forall x, f (u x) = f x) ->
  length (filter f (map u t)) = length (filter f t).
Proof.
  intros Hu. induction t as [|x t IH]; [reflexivity|].
  cbn. rewrite Hu. destruct (f x); cbn; now rewrite IH.
Qed.

End Lookup.

Lemma by_id_filter_true (g c : Z) (r : TemporaryVoiceChannel) :
  by_id_filter g c r = true <-> guild_id r = g /\ voice_channel_id r = c.
Proof.
  unfold by_id_filter. rewrite andb_true_iff, !Z.eqb_eq. tauto.
Qed.

Lemma by_id_filter_false (g c : Z) (r : TemporaryVoiceChannel) :
  by_id_filter g c r = false <-> ~ (guild_id r = g /\ voice_channel_id r = c).
Proof.
  rewrite <- by_id_filter_true. destruct (by_id_filter g c r); split; congruence.
Qed.

Lemma get_by_key_by_id (g c : Z) (t : list TemporaryVoiceChannel) :
  get_by_key (g, c) t = find (by_id_filter g c) t.
Proof. reflexivity. Qed.

Lemma no_record_find (w : World) (g c : Z) :
  no_record_at w g c -> find (by_id_filter g c) (table w) = None.
Proof.
  intros H. apply find_absent. intros x Hx.
  apply by_id_filter_false. intros [Hg Hc]. apply (H x). now split.
Qed.

Lemma find_no_record (w : World) (g c : Z) :
  find (by_id_filter g c) (table w) = None -> no_record_at w g c.
Proof.
  intros E r (Hin & Hg & Hc).
  apply find_none with (x := r) in E; [|assumption].
  apply by_id_filter_false in E. tauto.
Qed.

Lemma record_find (w : World) (g c : Z) (r : TemporaryVoiceChannel) :
  unique_keys w -> record_at w g c r ->
  find (by_id_filter g c) (table w) = Some r.
Proof.
  intros U (Hin & Hg & Hc). apply find_the_one; auto.
  - apply U.
  - now apply by_id_filter_true.
Qed.

Lemma find_record (w : World) (g c : Z) (r : TemporaryVoiceChannel) :
  find (by_id_filter g c) (table w) = Some r -> record_at w g c r.
Proof.
  intros E. apply find_some in E. destruct E as [Hin Hf].
  apply by_id_filter_true in Hf. now split.
Qed.

(** ** What each coroutine computes *)

Lemma get_by_id_eq (w : World) (g c : Z) :
  get_temporary_voice_channel_by_id g c w
  = Ok (find (by_id_filter g c) (table w), w).
Proof. reflexivity. Qed.

Lemma get_by_owner_id_eq (w : World) (u : Z) :
  get_temporary_voice_channel_by_owner_id u w
  = Ok (find (by_owner_filter u) (table w), w).
Proof. reflexivity. Qed.

Lemma get_or_create_found (w : World) (g v o : Z) (r : TemporaryVoiceChannel) :
  find (by_id_filter g v) (table w) = Some r ->
  get_or_create_temporary_voice_channel g v o w = Ok (r, w).
Proof. intros E. unfold_db. now rewrite E. Qed.

Lemma get_or_create_fresh (w : World) (g v o : Z) :
  find (by_id_filter g v) (table w) = None ->
  get_or_create_temporary_voice_channel g v o w
  = Ok (fresh_row g v o, with_table w (table w ++ [fresh_row g v o])).
Proof.
  intros E. unfold_db. rewrite E. cbn [setattrs fold_left setattr].
  change (primary_key _) with (g, v).
  rewrite get_by_key_by_id, E. reflexivity.
Qed.

Lemma delete_missing (w : World) (g c : Z) :
  find (by_id_filter g c) (table w) = None ->
  delete_temporary_voice_channel g c w = Ok (false, w).
Proof. intros E. unfold_db. now rewrite E. Qed.

Lemma delete_found (w : World) (g c : Z) (r : TemporaryVoiceChannel) :
  find (by_id_filter g c) (table w) = Some r ->
  delete_temporary_voice_channel g c w
  = Ok (true, with_table w (filter (fun x => negb (by_id_filter g c x)) (table w))).
Proof.
  intros E. unfold_db. rewrite E, get_by_key_by_id, E. reflexivity.
Qed.

Lemma handle_missing (w : World) (g c : Z) (b : bool) :
  find (by_id_filter g c) (table w) = None ->
  handle_owner_left_time g c b w = Ok (None, w).
Proof.
  intros E. unfold_db. destruct b; now rewrite get_by_key_by_id, E.
Qed.

Lemma handle_found (w : World) (g c : Z) (b : bool) (r : TemporaryVoiceChannel) :
  find (by_id_filter g c) (table w) = Some r ->
  handle_owner_left_time g c b w
  = Ok (Some (setattr r (Set_owner_left_time (left_time w b))),
        with_table w (map (stamp g c (left_time w b)) (table w))).
Proof.
  intros E. unfold_db. destruct b; now rewrite get_by_key_by_id, E.
Qed.

(** ** The uniqueness invariant under the three kinds of write *)

Lemma filter_absent_length (f : TemporaryVoiceChannel -> bool)
      (t : list TemporaryVoiceChannel) :
  find f t = None -> length (filter f t) = 0%nat.
Proof.
  induction t as [|x t IH]; [reflexivity|].
  cbn. destruct (f x); [discriminate | exact IH].
Qed.

Lemma stamp_key (g c g' c' : Z) (t : option datetime) (x : TemporaryVoiceChannel) :
  by_id_filter g' c' (stamp g c t x) = by_id_filter g' c' x.
Proof. unfold stamp. now destruct (by_id_filter g c x). Qed.

Lemma unique_keys_insert (w : World) (g v o : Z) :
  unique_keys w ->
  find (by_id_filter g v) (table w) = None ->
  unique_keys (with_table w (table w ++ [fresh_row g v o])).
Proof.
  intros U E g' c'. unfold count_at. cbn [table with_table].
  rewrite filter_app_one.
  destruct (by_id_filter g' c' (fresh_row g v o)) eqn:F.
  - apply by_id_filter_true in F. cbn in F. destruct F as [<- <-].
    rewrite (filter_absent_length _ _ E). lia.
  - specialize (U g' c'). unfold count_at in U. lia.
Qed.

Lemma unique_keys_remove (w : World) (p : TemporaryVoiceChannel -> bool) :
  unique_keys w -> unique_keys (with_table w (filter p (table w))).
Proof.
  intros U g c. unfold count_at. cbn [table with_table].
  eapply Nat.le_trans; [apply filter_filter_le | apply U].
Qed.

Lemma unique_keys_stamp (w : World) (g c : Z) (t : option datetime) :
  unique_keys w -> unique_keys (with_table w (map (stamp g c t) (table w))).
Proof.
  intros U g' c'. unfold count_at. cbn [table with_table].
  rewrite filter_map_stable; [apply U|].
  intros x. apply stamp_key.
Qed.

(** Each call returns, and leaves the invariant as it found it. *)
Lemma get_or_create_keeps (w : World) (g v o : Z) :
  unique_keys w ->
  exists r w', get_or_create_temporary_voice_channel g v o w = Ok (r, w')
               /\ unique_keys w'.
Proof.
  intros U. destruct (find (by_id_filter g v) (table w)) as [r|] eqn:E.
  - exists r, w. split; [now apply get_or_create_found | exact U].
  - eexists _, _. split; [exact (get_or_create_fresh w g v o E)|].
    now apply unique_keys_insert.
Qed.

Lemma delete_keeps (w : World) (g c : Z) :
  unique_keys w ->
  exists b w', delete_temporary_voice_channel g c w = Ok (b, w')
               /\ unique_keys w'.
Proof.
  intros U. destruct (find (by_id_filter g c) (table w)) as [r|] eqn:E.
  - eexists _, _. split; [exact (delete_found w g c r E)|].
    now apply unique_keys_remove.
  - exists false, w. split; [now apply delete_missing | exact U].
Qed.

Lemma handle_keeps (w : World) (g c : Z) (b : bool) :
  unique_keys w ->
  exists res w', handle_owner_left_time g c b w = Ok (res, w')
                 /\ unique_keys w'.
Proof.
  intros U. destruct (find (by_id_filter g c) (table w)) as [r|] eqn:E.
  - eexists _, _. split; [exact (handle_found w g c b r E)|].
    now apply unique_keys_stamp.
  - exists None, w. split; [now apply handle_missing | exact U].
Qed.

(** Whatever the callers do, starting from an empty store, no call raises
    and the invariant holds afterwards. *)
Lemma serve_keeps (q : request) (w : World) :
  unique_keys w -> exists w', serve q w = Ok w' /\ unique_keys w'.
Proof.
  intros U. destruct q as [g v o|g c|u|g c|g c b|now]; cbn [serve].
  - destruct (get_or_create_keeps w g v o U) as (r & w' & E & U').
    exists w'. unfold after. now rewrite E.
  - exists w. split; [reflexivity | exact U].
  - exists w. split; [reflexivity | exact U].
  - destruct (delete_keeps w g c U) as (r & w' & E & U').
    exists w'. unfold after. now rewrite E.
  - destruct (handle_keeps w g c b U) as (r & w' & E & U').
    exists w'. unfold after. now rewrite E.
  - eexists. split; [reflexivity | exact U].
Qed.

Lemma serve_all_keeps (qs : list request) (w : World) :
  unique_keys w -> exists w', serve_all qs w = Ok w' /\ unique_keys w'.
Proof.
  revert w. induction qs as [|q qs IH]; intros w U.
  - exists w. now split.
  - cbn [serve_all]. destruct (serve_keeps q w U) as (w1 & E & U1).
    rewrite E. now apply IH.
Qed.

Lemma empty_store_unique (now : datetime) : unique_keys (empty_store now).
Proof. intros g c. cbn. lia. Qed.

(** X10. Reachable stores: whatever sequence of calls and clock readings
    follows an empty store, no call raises, and the store at the end holds
    at most one record per composite key. *)
Corollary reachable_unique (qs : list request) (now : datetime) :
  exists w, serve_all qs (empty_store now) = Ok w /\ unique_keys w.
Proof. apply serve_all_keeps, empty_store_unique. Qed.

(** ** The computable check *)

Lemma keys_distinct_sound (w : World) :
  keys_distinct (table w) = true -> unique_keys w.
Proof.
  intros H g c. unfold count_at.
  induction (table w) as [|x t IH]; [cbn; lia|].
  cbn [keys_distinct] in H. apply andb_true_iff in H. destruct H as [Hx Ht].
  specialize (IH Ht). cbn [filter].
  destruct (by_id_filter g c x) eqn:F; [|exact IH].
  cbn [length]. apply by_id_filter_true in F. destruct F as [Fg Fc].
  rewrite filter_absent_length; [lia|].
  apply find_absent. intros y Hy.
  apply negb_true_iff in Hx.
  destruct (by_id_filter g c y) eqn:G; [|reflexivity].
  apply by_id_filter_true in G. destruct G as [Gg Gc].
  assert (Hex : existsb (fun y => key_eqb (primary_key y) (primary_key x)) t = true).
  { apply existsb_exists. exists y. split; [exact Hy|].
    unfold key_eqb, primary_key. cbn [fst snd].
    rewrite Fg, Fc, Gg, Gc, !Z.eqb_refl. reflexivity. }
  congruence.
Qed.

(** ** More on lookups after a write *)

Lemma find_app_one (f : TemporaryVoiceChannel -> bool)
      (t : list TemporaryVoiceChannel) (r : TemporaryVoiceChannel) :
  find f t = None -> f r = true -> find f (t ++ [r]) = Some r.
Proof.
  induction t as [|x t IH]; cbn; intros E Hr.
  - now rewrite Hr.
  - destruct (f x); [discriminate | now apply IH].
Qed.

Lemma find_filter_negb (f : TemporaryVoiceChannel -> bool)
      (t : list TemporaryVoiceChannel) :
  find f (filter (fun x => negb (f x)) t) = None.
Proof.
  apply find_absent. intros x Hx. apply filter_In in Hx.
  destruct Hx as [_ Hx]. now apply negb_true_iff.
Qed.

Lemma find_map_stable (f : TemporaryVoiceChannel -> bool)
      (u : TemporaryVoiceChannel -> TemporaryVoiceChannel)
      (t : list TemporaryVoiceChannel) :
  (forall x, f (u x) = f x) ->
  find f (map u t) = option_map u (find f t).
Proof.
  intros Hu. induction t as [|x t IH]; [reflexivity|].
  cbn. rewrite Hu. now destruct (f x).
Qed.

Lemma stamp_hit (g c : Z) (t : option datetime) (r : TemporaryVoiceChannel) :
  by_id_filter g c r = true ->
  stamp g c t r = setattr r (Set_owner_left_time t).
Proof. intros H. unfold stamp. now rewrite H. Qed.

Lemma find_after_stamp (w : World) (g c : Z) (t : option datetime)
      (r : TemporaryVoiceChannel) :
  find (by_id_filter g c) (table w) = Some r ->
  find (by_id_filter g c) (map (stamp g c t) (table w))
  = Some (setattr r (Set_owner_left_time t)).
Proof.
  intros E. rewrite find_map_stable by (intros x; apply stamp_key).
  rewrite E. cbn. f_equal. apply stamp_hit.
  now apply find_some in E.
Qed.

(** ** The scenario of the specification, run *)

(** Create (guild 1, channel 100, owner 42) on an empty store, look it up,
    report the owner gone, delete, look it up again. *)
Example scenario :
  let w0 := empty_store 1700000000000000 in
  exists w1 w2 w3,
    get_or_create_temporary_voice_channel 1 100 42 w0
    = Ok (mkTemporaryVoiceChannel 1 100 42 None, w1)
    /\ get_temporary_voice_channel_by_id 1 100 w1
       = Ok (Some (mkTemporaryVoiceChannel 1 100 42 None), w1)
    /\ handle_owner_left_time 1 100 true w1
       = Ok (Some (mkTemporaryVoiceChannel 1 100 42 (Some 1700000300000000)), w2)
    /\ delete_temporary_voice_channel 1 100 w2 = Ok (true, w3)
    /\ get_temporary_voice_channel_by_id 1 100 w3 = Ok (None, w3).
Proof.
  cbv zeta. eexists _, _, _.
  split; [vm_compute; reflexivity|].
  split; [vm_compute; reflexivity|].
  split; [vm_compute; reflexivity|].
  split; vm_compute; reflexivity.
Qed.

(** ** The controller's contract *)

(** C1. Get-or-create is idempotent on existing records: in a store that
    holds a record at [(g, v)], the call returns that record and leaves the
    store as it was, whatever owner is passed; and two calls in a row with
    the same key and two owners return the same record both times, the
    second writing nothing, the record carrying the first owner when the
    first call had to create it. *)
Theorem get_or_create_idempotent (w : World) (g v : Z) :
  unique_keys w ->
  (forall r, record_at w g v r ->
     forall o, get_or_create_temporary_voice_channel g v o w = Ok (r, w))
  /\ (forall o1 o2, exists r w1,
        get_or_create_temporary_voice_channel g v o1 w = Ok (r, w1)
        /\ get_or_create_temporary_voice_channel g v o2 w1 = Ok (r, w1)
        /\ (no_record_at w g v -> owner_id r = o1)).
Proof.
  intros U. split.
  - intros r Hr o. apply get_or_create_found. now apply record_find.
  - intros o1 o2. destruct (find (by_id_filter g v) (table w)) as [r|] eqn:E.
    + exists r, w. repeat split; try now apply get_or_create_found.
      intros Hno. exfalso. apply (Hno r). now apply find_record.
    + exists (fresh_row g v o1), (with_table w (table w ++ [fresh_row g v o1])).
      repeat split.
      * now apply get_or_create_fresh.
      * apply get_or_create_found. cbn [table with_table].
        apply find_app_one; [exact E|].
        apply by_id_filter_true. now split.
Qed.

Lemma get_or_create_idempotent_witness :
  get_or_create_temporary_voice_channel 1 100 7 sample_store
  = Ok (sample_row, sample_store)
  /\ exists r w1,
       get_or_create_temporary_voice_channel 3 100 5 sample_store = Ok (r, w1)
       /\ get_or_create_temporary_voice_channel 3 100 6 w1 = Ok (r, w1)
       /\ (no_record_at sample_store 3 100 -> owner_id r = 5).
Proof.
  split.
  - apply (proj1 (get_or_create_idempotent sample_store 1 100
                    (keys_distinct_sound sample_store eq_refl))).
    repeat split. now left.
  - apply (proj2 (get_or_create_idempotent sample_store 3 100
                    (keys_distinct_sound sample_store eq_refl))).
Defined.

(** C6. In a store with no record at [(g, v)], get-or-create returns a new
    record with the three identifiers it was given and a null left-time,
    and that record is stored: it is appended to the table and is what a
    lookup at [(g, v)] finds afterwards. *)
Theorem get_or_create_creates (w : World) (g v o : Z) :
  no_record_at w g v ->
  exists r w',
    get_or_create_temporary_voice_channel g v o w = Ok (r, w')
    /\ guild_id r = g /\ voice_channel_id r = v /\ owner_id r = o
    /\ owner_left_time r = None
    /\ table w' = table w ++ [r]
    /\ get_temporary_voice_channel_by_id g v w' = Ok (Some r, w').
Proof.
  intros Hno. apply no_record_find in Hno.
  exists (fresh_row g v o), (with_table w (table w ++ [fresh_row g v o])).
  split; [now apply get_or_create_fresh|].
  repeat split. rewrite get_by_id_eq. cbn [table with_table].
  rewrite find_app_one; [reflexivity | exact Hno |].
  apply by_id_filter_true. now split.
Qed.

Lemma get_or_create_creates_witness :
  exists r w',
    get_or_create_temporary_voice_channel 3 100 5 sample_store = Ok (r, w')
    /\ guild_id r = 3 /\ voice_channel_id r = 100 /\ owner_id r = 5
    /\ owner_left_time r = None
    /\ table w' = table sample_store ++ [r]
    /\ get_temporary_voice_channel_by_id 3 100 w' = Ok (Some r, w').
Proof.
  apply (get_or_create_creates sample_store 3 100 5).
  apply find_no_record. reflexivity.
Defined.

(** C3. Delete returns false and writes nothing when no record is stored at
    the key; when one is, it returns true and a lookup at the key then
    finds nothing. *)
Theorem delete_contract (w : World) (g c : Z) :
  (no_record_at w g c ->
     delete_temporary_voice_channel g c w = Ok (false, w))
  /\ ((exists r, record_at w g c r) ->
      exists w',
        delete_temporary_voice_channel g c w = Ok (true, w')
        /\ get_temporary_voice_channel_by_id g c w' = Ok (None, w')).
Proof.
  split.
  - intros Hno. now apply delete_missing, no_record_find.
  - intros [r Hr].
    destruct (find (by_id_filter g c) (table w)) as [r0|] eqn:E.
    + eexists. split; [exact (delete_found w g c r0 E)|].
      rewrite get_by_id_eq. cbn [table with_table].
      now rewrite find_filter_negb.
    + exfalso. exact (find_no_record w g c E r Hr).
Qed.

Lemma delete_contract_witness :
  delete_temporary_voice_channel 3 100 sample_store = Ok (false, sample_store)
  /\ exists w',
       delete_temporary_voice_channel 1 100 sample_store = Ok (true, w')
       /\ get_temporary_voice_channel_by_id 1 100 w' = Ok (None, w').
Proof.
  split.
  - apply (proj1 (delete_contract sample_store 3 100)).
    apply find_no_record. reflexivity.
  - apply (proj2 (delete_contract sample_store 1 100)).
    exists sample_row. repeat split. now left.
Defined.

(** A key nobody asked to create stays without a record. *)
Lemma serve_keeps_gap (q : request) (w w' : World) (g c : Z) :
  creates g c q = false ->
  no_record_at w g c -> serve q w = Ok w' -> no_record_at w' g c.
Proof.
  intros Hq Hno.
  destruct q as [g' v' o|g' c'|u|g' c'|g' c' b|now]; cbn [serve creates] in *.
  - unfold after.
    destruct (find (by_id_filter g' v') (table w)) as [r0|] eqn:E.
    + rewrite (get_or_create_found w g' v' o r0 E). intros [= <-]. exact Hno.
    + rewrite (get_or_create_fresh w g' v' o E). intros [= <-].
      intros r (Hin & Hg & Hc). cbn [table with_table] in Hin.
      apply in_app_or in Hin. destruct Hin as [Hin|[<-|[]]].
      * apply (Hno r). now split.
      * cbn in Hg, Hc. subst. now rewrite !Z.eqb_refl in Hq.
  - intros [= <-]. exact Hno.
  - intros [= <-]. exact Hno.
  - unfold after.
    destruct (find (by_id_filter g' c') (table w)) as [r0|] eqn:E.
    + rewrite (delete_found w g' c' r0 E). intros [= <-].
      intros r (Hin & Hg & Hc). cbn [table with_table] in Hin.
      apply filter_In in Hin. apply (Hno r). now split.
    + rewrite (delete_missing w g' c' E). intros [= <-]. exact Hno.
  - unfold after.
    destruct (find (by_id_filter g' c') (table w)) as [r0|] eqn:E.
    + rewrite (handle_found w g' c' b r0 E). intros [= <-].
      intros r (Hin & Hg & Hc). cbn [table with_table] in Hin.
      apply in_map_iff in Hin. destruct Hin as (x & <- & Hx).
      apply (Hno x). split; [exact Hx|].
      apply by_id_filter_true. rewrite <- (stamp_key g' c' g c (left_time w b) x).
      now apply by_id_filter_true.
    + rewrite (handle_missing w g' c' b E). intros [= <-]. exact Hno.
  - intros [= <-]. exact Hno.
Qed.

Lemma serve_all_keeps_gap (qs : list request) (w w' : World) (g c : Z) :
  forallb (fun q => negb (creates g c q)) qs = true ->
  no_record_at w g c -> serve_all qs w = Ok w' -> no_record_at w' g c.
Proof.
  revert w. induction qs as [|q qs IH]; intros w Hqs Hno; cbn [serve_all].
  - intros [= <-]. exact Hno.
  - cbn [forallb] in Hqs. apply andb_true_iff in Hqs. destruct Hqs as [Hq Hqs].
    apply negb_true_iff in Hq.
    destruct (serve q w) as [w1|e] eqn:E; [|discriminate].
    apply IH; [exact Hqs|]. exact (serve_keeps_gap q w w1 g c Hq Hno E).
Qed.

(** C8. Lookup by id is an exact composite-key lookup: it never writes; it
    returns absent when no record is stored at [(g, c)], in particular
    after any sequence of calls, begun on an empty store, none of which is
    a get-or-create for [(g, c)]; and it returns the record stored at
    [(g, c)] when there is one. *)
Theorem get_by_id_exact (g c : Z) :
  (forall w, no_record_at w g c ->
     get_temporary_voice_channel_by_id g c w = Ok (None, w))
  /\ (forall now qs w,
        serve_all qs (empty_store now) = Ok w ->
        forallb (fun q => negb (creates g c q)) qs = true ->
        get_temporary_voice_channel_by_id g c w = Ok (None, w))
  /\ (forall w r, unique_keys w -> record_at w g c r ->
        get_temporary_voice_channel_by_id g c w = Ok (Some r, w)).
Proof.
  split; [|split].
  - intros w Hno. rewrite get_by_id_eq. now rewrite no_record_find.
  - intros now qs w Hrun Hqs. rewrite get_by_id_eq.
    rewrite no_record_find; [reflexivity|].
    apply (serve_all_keeps_gap qs (empty_store now) w g c Hqs); [|exact Hrun].
    intros r (Hin & _). exact Hin.
  - intros w r U Hr. rewrite get_by_id_eq. now rewrite (record_find w g c r).
Qed.

Lemma get_by_id_exact_witness :
  get_temporary_voice_channel_by_id 3 100 sample_store = Ok (None, sample_store)
  /\ (exists w, serve_all sample_requests (empty_store 0) = Ok w
        /\ get_temporary_voice_channel_by_id 1 100 w = Ok (None, w))
  /\ get_temporary_voice_channel_by_id 1 100 sample_store
     = Ok (Some sample_row, sample_store).
Proof.
  split; [|split].
  - apply (proj1 (get_by_id_exact 3 100)). apply find_no_record. reflexivity.
  - eexists. split; [vm_compute; reflexivity|].
    apply (proj1 (proj2 (get_by_id_exact 1 100)) 0 sample_requests);
      reflexivity.
  - apply (proj2 (proj2 (get_by_id_exact 1 100))).
    + apply keys_distinct_sound. reflexivity.
    + repeat split. now left.
Defined.

(** C9. Lookup by owner returns absent, writing nothing, when no stored
    record has that owner; otherwise it returns a stored record with that
    owner. *)
Theorem get_by_owner_id_contract (w : World) (u : Z) :
  ((forall r, In r (table w) -> owner_id r <> u) ->
     get_temporary_voice_channel_by_owner_id u w = Ok (None, w))
  /\ (forall r, In r (table w) -> owner_id r = u ->
        exists r',
          get_temporary_voice_channel_by_owner_id u w = Ok (Some r', w)
          /\ In r' (table w) /\ owner_id r' = u).
Proof.
  split.
  - intros Hno. rewrite get_by_owner_id_eq. rewrite find_absent; [reflexivity|].
    intros x Hx. apply Z.eqb_neq. now apply Hno.
  - intros r Hin Hu. rewrite get_by_owner_id_eq.
    destruct (find_present (by_owner_filter u) (table w) r Hin) as (r' & E & Hin' & Hf).
    + now apply Z.eqb_eq.
    + exists r'. rewrite E. repeat split; [exact Hin'|]. now apply Z.eqb_eq.
Qed.

Lemma get_by_owner_id_contract_witness :
  get_temporary_voice_channel_by_owner_id 8 sample_store = Ok (None, sample_store)
  /\ exists r',
       get_temporary_voice_channel_by_owner_id 42 sample_store
       = Ok (Some r', sample_store)
       /\ In r' (table sample_store) /\ owner_id r' = 42.
Proof.
  split.
  - apply (proj1 (get_by_owner_id_contract sample_store 8)).
    intros r Hin. cbn in Hin.
    destruct Hin as [<-|[<-|[<-|[]]]]; cbn; lia.
  - apply (proj2 (get_by_owner_id_contract sample_store 42) sample_row).
    + now left.
    + reflexivity.
Defined.

(** C4. In a store that holds a record at [(g, c)], reporting that the
    owner left stamps that record with the clock reading plus five minutes
    (300 seconds, in microseconds) and returns the stamped record: the
    other three columns are those of the stored record, and the stamped
    record is what a lookup at [(g, c)] finds afterwards. *)
Theorem owner_left_sets_deadline (w : World) (g c : Z) (r : TemporaryVoiceChannel) :
  unique_keys w -> record_at w g c r ->
  exists r' w',
    handle_owner_left_time g c true w = Ok (Some r', w')
    /\ owner_left_time r' = Some (clock w + timedelta_minutes 5)
    /\ timedelta_minutes 5 = 300 * 1000000
    /\ guild_id r' = g /\ voice_channel_id r' = c /\ owner_id r' = owner_id r
    /\ get_temporary_voice_channel_by_id g c w' = Ok (Some r', w').
Proof.
  intros U Hr. pose proof (record_find w g c r U Hr) as E.
  destruct Hr as (_ & Hg & Hc).
  eexists _, _. split; [exact (handle_found w g c true r E)|].
  repeat split; try assumption.
  rewrite get_by_id_eq. cbn [table with_table].
  now rewrite (find_after_stamp w g c _ r E).
Qed.

Lemma owner_left_sets_deadline_witness :
  exists r' w',
    handle_owner_left_time 1 100 true sample_store = Ok (Some r', w')
    /\ owner_left_time r' = Some (clock sample_store + timedelta_minutes 5)
    /\ timedelta_minutes 5 = 300 * 1000000
    /\ guild_id r' = 1 /\ voice_channel_id r' = 100
    /\ owner_id r' = owner_id sample_row
    /\ get_temporary_voice_channel_by_id 1 100 w' = Ok (Some r', w').
Proof.
  apply (owner_left_sets_deadline sample_store 1 100 sample_row).
  - apply keys_distinct_sound. reflexivity.
  - repeat split. now left.
Defined.

(** C5. In a store with no record at [(g, c)], reporting the owner's
    presence or absence returns absent and leaves the store as it was. *)
Theorem owner_left_missing (w : World) (g c : Z) (owner_left : bool) :
  no_record_at w g c ->
  handle_owner_left_time g c owner_left w = Ok (None, w).
Proof.
  intros Hno. now apply handle_missing, no_record_find.
Qed.

Lemma owner_left_missing_witness :
  handle_owner_left_time 3 100 true sample_store = Ok (None, sample_store)
  /\ handle_owner_left_time 3 100 false sample_store = Ok (None, sample_store).
Proof.
  split; apply (owner_left_missing sample_store 3 100);
    apply find_no_record; reflexivity.
Defined.

(** C7. In a store that holds a record at [(g, c)], reporting that the
    owner is back sets that record's left-time to null and returns the
    updated record, which is what a lookup at [(g, c)] finds afterwards;
    and this holds as well right after the owner was reported gone. *)
Theorem owner_back_clears (w : World) (g c : Z) (r : TemporaryVoiceChannel) :
  unique_keys w -> record_at w g c r ->
  (exists r' w',
     handle_owner_left_time g c false w = Ok (Some r', w')
     /\ owner_left_time r' = None
     /\ guild_id r' = g /\ voice_channel_id r' = c /\ owner_id r' = owner_id r
     /\ get_temporary_voice_channel_by_id g c w' = Ok (Some r', w'))
  /\ (exists r1 w1 r2 w2,
        handle_owner_left_time g c true w = Ok (Some r1, w1)
        /\ handle_owner_left_time g c false w1 = Ok (Some r2, w2)
        /\ owner_left_time r2 = None
        /\ guild_id r2 = g /\ voice_channel_id r2 = c /\ owner_id r2 = owner_id r
        /\ get_temporary_voice_channel_by_id g c w2 = Ok (Some r2, w2)).
Proof.
  intros U Hr. pose proof (record_find w g c r U Hr) as E.
  destruct Hr as (_ & Hg & Hc). split.
  - eexists _, _. split; [exact (handle_found w g c false r E)|].
    repeat split; try assumption.
    rewrite get_by_id_eq. cbn [table with_table].
    now rewrite (find_after_stamp w g c _ r E).
  - set (w1 := with_table w (map (stamp g c (left_time w true)) (table w))).
    assert (E1 : find (by_id_filter g c) (table w1)
                 = Some (setattr r (Set_owner_left_time (left_time w true))))
      by exact (find_after_stamp w g c _ r E).
    eexists _, w1, _, _. split; [exact (handle_found w g c true r E)|].
    split; [exact (handle_found w1 g c false _ E1)|].
    repeat split; try assumption.
    rewrite get_by_id_eq. cbn [table with_table].
    now rewrite (find_after_stamp w1 g c _ _ E1).
Qed.

Lemma owner_back_clears_witness :
  (exists r' w',
     handle_owner_left_time 1 200 false sample_store = Ok (Some r', w')
     /\ owner_left_time r' = None
     /\ guild_id r' = 1 /\ voice_channel_id r' = 200 /\ owner_id r' = 42
     /\ get_temporary_voice_channel_by_id 1 200 w' = Ok (Some r', w'))
  /\ (exists r1 w1 r2 w2,
        handle_owner_left_time 1 200 true sample_store = Ok (Some r1, w1)
        /\ handle_owner_left_time 1 200 false w1 = Ok (Some r2, w2)
        /\ owner_left_time r2 = None
        /\ guild_id r2 = 1 /\ voice_channel_id r2 = 200 /\ owner_id r2 = 42
        /\ get_temporary_voice_channel_by_id 1 200 w2 = Ok (Some r2, w2)).
Proof.
  apply (owner_back_clears sample_store 1 200
           (mkTemporaryVoiceChannel 1 200 42 (Some 1699999999000000))).
  - apply keys_distinct_sound. reflexivity.
  - repeat split. right. now left.
Defined.

Lemma Forall2_map_self (R : TemporaryVoiceChannel -> TemporaryVoiceChannel -> Prop)
      (u : TemporaryVoiceChannel -> TemporaryVoiceChannel)
      (t : list TemporaryVoiceChannel) :
  (forall x, R x (u x)) -> Forall2 R t (map u t).
Proof.
  intros H. induction t as [|x t IH]; cbn; constructor; auto.
Qed.

Lemma stamp_only_left_time (g c : Z) (t : option datetime)
      (x : TemporaryVoiceChannel) :
  only_left_time_at g c x (stamp g c t x).
Proof.
  unfold only_left_time_at, stamp.
  destruct (by_id_filter g c x) eqn:F; cbn; repeat split; auto.
  intros Hk. exfalso. apply Hk. apply by_id_filter_true in F.
  unfold primary_key. destruct F as [-> ->]. reflexivity.
Qed.

(** C10. Reporting the owner's presence or absence at [(g, c)] returns, and
    changes nothing but left-times at that key: row by row, in storage
    order, the three identifiers after the call are those before it, and a
    row stored under any other key is the same row; no row is added or
    removed, and the clock is not touched. *)
Theorem owner_left_frame (w : World) (g c : Z) (owner_left : bool) :
  exists res w',
    handle_owner_left_time g c owner_left w = Ok (res, w')
    /\ clock w' = clock w
    /\ Forall2 (only_left_time_at g c) (table w) (table w').
Proof.
  destruct (find (by_id_filter g c) (table w)) as [r|] eqn:E.
  - eexists _, _. split; [exact (handle_found w g c owner_left r E)|].
    split; [reflexivity|]. cbn [table with_table].
    apply Forall2_map_self. intros x. apply stamp_only_left_time.
  - exists None, w. split; [now apply handle_missing|].
    split; [reflexivity|].
    rewrite <- (map_id (table w)) at 2.
    apply Forall2_map_self. intros x. repeat split.
Qed.

(** C2. Every call of the controller returns and preserves the invariant
    that at most one record is stored per composite key: from a store that
    satisfies it, get-or-create, lookup by id, lookup by owner, delete and
    the owner-left update each end in a store that satisfies it. *)
Theorem unique_keys_preserved (w : World) :
  unique_keys w ->
  (forall g v o, exists r w',
      get_or_create_temporary_voice_channel g v o w = Ok (r, w')
      /\ unique_keys w')
  /\ (forall g c, exists res w',
        get_temporary_voice_channel_by_id g c w = Ok (res, w')
        /\ unique_keys w')
  /\ (forall u, exists res w',
        get_temporary_voice_channel_by_owner_id u w = Ok (res, w')
        /\ unique_keys w')
  /\ (forall g c, exists b w',
        delete_temporary_voice_channel g c w = Ok (b, w')
        /\ unique_keys w')
  /\ (forall g c owner_left, exists res w',
        handle_owner_left_time g c owner_left w = Ok (res, w')
        /\ unique_keys w').
Proof.
  intros U. repeat split.
  - intros g v o. now apply get_or_create_keeps.
  - intros g c. eexists _, _. split; [apply get_by_id_eq | exact U].
  - intros u. eexists _, _. split; [apply get_by_owner_id_eq | exact U].
  - intros g c. now apply delete_keeps.
  - intros g c b. now apply handle_keeps.
Qed.

Lemma unique_keys_preserved_witness :
  (forall g v o, exists r w',
      get_or_create_temporary_voice_channel g v o sample_store = Ok (r, w')
      /\ unique_keys w')
  /\ (forall g c, exists res w',
        get_temporary_voice_channel_by_id g c sample_store = Ok (res, w')
        /\ unique_keys w')
  /\ (forall u, exists res w',
        get_temporary_voice_channel_by_owner_id u sample_store = Ok (res, w')
        /\ unique_keys w')
  /\ (forall g c, exists b w',
        delete_temporary_voice_channel g c sample_store = Ok (b, w')
        /\ unique_keys w')
  /\ (forall g c owner_left, exists res w',
        handle_owner_left_time g c owner_left sample_store = Ok (res, w')
        /\ unique_keys w').
Proof.
  apply (unique_keys_preserved sample_store).
  apply keys_distinct_sound. reflexivity.
Defined.

(** ** How the calls compose *)

Lemma find_app_miss (f : TemporaryVoiceChannel -> bool)
      (t : list TemporaryVoiceChannel) (r : TemporaryVoiceChannel) :
  f r = false -> find f (t ++ [r]) = find f t.
Proof.
  intros Hr. induction t as [|x t IH]; cbn.
  - now rewrite Hr.
  - now destruct (f x).
Qed.

Lemma find_filter_keep (f p : TemporaryVoiceChannel -> bool)
      (t : list TemporaryVoiceChannel) :
  (forall x, f x = true -> p x = true) ->
  find f (filter p t) = find f t.
Proof.
  intros H. induction t as [|x t IH]; [reflexivity|].
  cbn. destruct (f x) eqn:F.
  - rewrite (H x F). cbn. now rewrite F.
  - destruct (p x); cbn; rewrite ?F; exact IH.
Qed.

Lemma filter_negb_absent (f : TemporaryVoiceChannel -> bool)
      (t : list TemporaryVoiceChannel) :
  find f t = None -> filter (fun x => negb (f x)) t = t.
Proof.
  induction t as [|x t IH]; [reflexivity|].
  cbn. destruct (f x); [discriminate|]. cbn. intros E. now rewrite IH.
Qed.

(** Two different keys: a row found under one does not pass the filter of
    the other. *)
Lemma other_key (g c g' c' : Z) (x : TemporaryVoiceChannel) :
  (g', c') <> (g, c) ->
  by_id_filter g' c' x = true -> negb (by_id_filter g c x) = true.
Proof.
  intros Hk F. apply negb_true_iff. apply by_id_filter_false.
  apply by_id_filter_true in F. destruct F as [<- <-].
  intros [<- <-]. now apply Hk.
Qed.

Lemma with_table_same (w : World) : with_table w (table w) = w.
Proof. now destruct w. Qed.

(** X1. Get-or-create never lets the uniqueness violation through, on any
    store, well formed or not: it returns a record with the key asked for,
    and that record is what a lookup at the key returns right after. *)
Theorem get_or_create_then_lookup (w : World) (g v o : Z) :
  exists r w',
    get_or_create_temporary_voice_channel g v o w = Ok (r, w')
    /\ guild_id r = g /\ voice_channel_id r = v
    /\ get_temporary_voice_channel_by_id g v w' = Ok (Some r, w').
Proof.
  destruct (find (by_id_filter g v) (table w)) as [r|] eqn:E.
  - exists r, w. split; [now apply get_or_create_found|].
    destruct (find_record w g v r E) as (_ & Hg & Hv).
    repeat split; try assumption.
    rewrite get_by_id_eq. now rewrite E.
  - eexists _, _. split; [exact (get_or_create_fresh w g v o E)|].
    repeat split. rewrite get_by_id_eq. cbn [table with_table].
    rewrite find_app_one; [reflexivity | exact E |].
    apply by_id_filter_true. now split.
Qed.

(** X2. Get-or-create at [(g, v)] touches no other key: the table afterwards
    is the table before, followed by at most the one returned record; the
    clock is as before; and a lookup at any other key returns what it
    returned before the call. *)
Theorem get_or_create_frame (w : World) (g v o : Z) :
  exists r w',
    get_or_create_temporary_voice_channel g v o w = Ok (r, w')
    /\ clock w' = clock w
    /\ (table w' = table w \/ table w' = table w ++ [r])
    /\ (forall g' c' res,
          (g', c') <> (g, v) ->
          get_temporary_voice_channel_by_id g' c' w = Ok (res, w) ->
          get_temporary_voice_channel_by_id g' c' w' = Ok (res, w')).
Proof.
  destruct (find (by_id_filter g v) (table w)) as [r|] eqn:E.
  - exists r, w. split; [now apply get_or_create_found|].
    repeat split; auto.
  - eexists _, _. split; [exact (get_or_create_fresh w g v o E)|].
    split; [reflexivity|]. split; [now right|].
    intros g' c' res Hk. rewrite !get_by_id_eq. cbn [table with_table].
    intros [= <-]. rewrite find_app_miss; [reflexivity|].
    apply by_id_filter_false. cbn. intros [<- <-]. now apply Hk.
Qed.

Lemma get_or_create_frame_witness :
  exists r w',
    get_or_create_temporary_voice_channel 3 100 5 sample_store = Ok (r, w')
    /\ table w' = table sample_store ++ [r]
    /\ get_temporary_voice_channel_by_id 1 200 w'
       = Ok (Some (mkTemporaryVoiceChannel 1 200 42 (Some 1699999999000000)), w').
Proof.
  destruct (get_or_create_frame sample_store 3 100 5) as (r & w' & E & _ & _ & H).
  exists r, w'. split; [exact E|].
  vm_compute in E. injection E as <- <-.
  split; [reflexivity|].
  apply H; [discriminate | reflexivity].
Defined.

(** X3. Delete at [(g, c)] touches no other key: it returns, leaves the
    clock alone, adds no row, keeps every row stored under another key, and
    a lookup at any other key returns what it returned before the call. *)
Theorem delete_frame (w : World) (g c : Z) :
  exists b w',
    delete_temporary_voice_channel g c w = Ok (b, w')
    /\ clock w' = clock w
    /\ (forall x, In x (table w') -> In x (table w))
    /\ (forall x, In x (table w) -> primary_key x <> (g, c) -> In x (table w'))
    /\ (forall g' c' res,
          (g', c') <> (g, c) ->
          get_temporary_voice_channel_by_id g' c' w = Ok (res, w) ->
          get_temporary_voice_channel_by_id g' c' w' = Ok (res, w')).
Proof.
  destruct (find (by_id_filter g c) (table w)) as [r|] eqn:E.
  - eexists _, _. split; [exact (delete_found w g c r E)|].
    cbn [table with_table clock]. split; [reflexivity|].
    split; [|split].
    + intros x Hx. now apply filter_In in Hx.
    + intros x Hx Hk. apply filter_In. split; [exact Hx|].
      apply negb_true_iff, by_id_filter_false.
      intros [Hg Hc]. apply Hk. unfold primary_key. now rewrite Hg, Hc.
    + intros g' c' res Hk. rewrite !get_by_id_eq. cbn [table with_table].
      intros [= <-]. rewrite find_filter_keep; [reflexivity|].
      intros x. now apply other_key.
  - exists false, w. split; [now apply delete_missing|].
    repeat split; auto.
Qed.

Lemma delete_frame_witness :
  exists b w',
    delete_temporary_voice_channel 1 100 sample_store = Ok (b, w')
    /\ In (mkTemporaryVoiceChannel 2 100 7 None) (table w')
    /\ get_temporary_voice_channel_by_id 1 200 w'
       = Ok (Some (mkTemporaryVoiceChannel 1 200 42 (Some 1699999999000000)), w').
Proof.
  destruct (delete_frame sample_store 1 100) as (b & w' & E & _ & _ & Hin & H).
  exists b, w'. split; [exact E|]. split.
  - apply Hin; [cbn; tauto | discriminate].
  - apply H; [discriminate | reflexivity].
Defined.

(** X4. Deleting twice: whatever the first delete at a key returned, a
    second delete at the same key right after returns false and writes
    nothing. *)
Theorem delete_twice (w : World) (g c : Z) :
  exists b w',
    delete_temporary_voice_channel g c w = Ok (b, w')
    /\ delete_temporary_voice_channel g c w' = Ok (false, w').
Proof.
  destruct (find (by_id_filter g c) (table w)) as [r|] eqn:E.
  - eexists _, _. split; [exact (delete_found w g c r E)|].
    apply delete_missing. cbn [table with_table]. apply find_filter_negb.
  - exists false, w. split; now apply delete_missing.
Qed.

(** X5. Create, then delete, is a round trip: on a store with no record at
    [(g, v)], get-or-create followed by delete at that key returns true
    and gives back the store exactly as it was. *)
Theorem create_then_delete_restores (w : World) (g v o : Z) :
  no_record_at w g v ->
  exists r w1,
    get_or_create_temporary_voice_channel g v o w = Ok (r, w1)
    /\ delete_temporary_voice_channel g v w1 = Ok (true, w).
Proof.
  intros Hno. apply no_record_find in Hno.
  eexists _, _. split; [exact (get_or_create_fresh w g v o Hno)|].
  set (w1 := with_table w (table w ++ [fresh_row g v o])).
  assert (F : by_id_filter g v (fresh_row g v o) = true)
    by (apply by_id_filter_true; now split).
  assert (E1 : find (by_id_filter g v) (table w1) = Some (fresh_row g v o))
    by (apply find_app_one; assumption).
  rewrite (delete_found w1 g v _ E1). do 2 f_equal.
  cbn [table with_table w1]. rewrite filter_app, (filter_negb_absent _ _ Hno).
  cbn [filter]. rewrite F. cbn [negb]. rewrite app_nil_r.
  now destruct w.
Qed.

Lemma create_then_delete_restores_witness :
  exists r w1,
    get_or_create_temporary_voice_channel 3 100 5 sample_store = Ok (r, w1)
    /\ delete_temporary_voice_channel 3 100 w1 = Ok (true, sample_store).
Proof.
  apply (create_then_delete_restores sample_store 3 100 5).
  apply find_no_record. reflexivity.
Defined.

Lemma filter_split_length (f : TemporaryVoiceChannel -> bool)
      (t : list TemporaryVoiceChannel) :
  (length (filter f t) + length (filter (fun x => negb (f x)) t))%nat
  = length t.
Proof.
  induction t as [|x t IH]; [reflexivity|].
  cbn. destruct (f x); cbn; lia.
Qed.

(** X6. In a well-formed store, delete removes exactly the record at the
    key: the table is one row shorter, and its rows are the rows of before
    other than that record. *)
Theorem delete_removes_one (w : World) (g c : Z) (r : TemporaryVoiceChannel) :
  unique_keys w -> record_at w g c r ->
  exists w',
    delete_temporary_voice_channel g c w = Ok (true, w')
    /\ length (table w) = S (length (table w'))
    /\ (forall x, In x (table w') <-> In x (table w) /\ x <> r).
Proof.
  intros U Hr. pose proof (record_find w g c r U Hr) as E.
  eexists. split; [exact (delete_found w g c r E)|].
  cbn [table with_table]. destruct Hr as (Hin & Hg & Hc).
  assert (F : by_id_filter g c r = true) by (now apply by_id_filter_true).
  split.
  - pose proof (filter_split_length (by_id_filter g c) (table w)) as L.
    pose proof (U g c) as L1. unfold count_at in L1.
    assert (L2 : (length (filter (by_id_filter g c) (table w)) <> 0)%nat).
    { intros L0. rewrite (filter_nil_length _ _ L0 r Hin) in F. discriminate. }
    lia.
  - intros x. rewrite filter_In, negb_true_iff. split.
    + intros [Hx Fx]. split; [exact Hx|]. intros ->. congruence.
    + intros [Hx Hne]. split; [exact Hx|].
      destruct (by_id_filter g c x) eqn:Fx; [|reflexivity].
      exfalso. apply Hne.
      assert (Ex : find (by_id_filter g c) (table w) = Some x)
        by (apply find_the_one; [apply U | exact Hx | exact Fx]).
      congruence.
Qed.

Lemma delete_removes_one_witness :
  exists w',
    delete_temporary_voice_channel 1 100 sample_store = Ok (true, w')
    /\ length (table sample_store) = S (length (table w'))
    /\ (forall x, In x (table w') <-> In x (table sample_store) /\ x <> sample_row).
Proof.
  apply (delete_removes_one sample_store 1 100 sample_row).
  - apply keys_distinct_sound. reflexivity.
  - repeat split. now left.
Defined.

(** X7. No call transfers a channel: after any one request, every stored
    row has the key and the owner of a row stored before, unless it is the
    row a get-or-create just added under a key that had no record. *)
Theorem ownership_fixed (q : request) (w w' : World) (r' : TemporaryVoiceChannel) :
  serve q w = Ok w' -> In r' (table w') ->
  (exists r, In r (table w)
             /\ primary_key r = primary_key r' /\ owner_id r = owner_id r')
  \/ (exists g v o, q = GetOrCreate g v o /\ no_record_at w g v
                    /\ r' = mkTemporaryVoiceChannel g v o None).
Proof.
  assert (Same : In r' (table w) ->
                 exists r, In r (table w)
                           /\ primary_key r = primary_key r'
                           /\ owner_id r = owner_id r')
    by (intros H; exists r'; auto).
  destruct q as [g v o|g c|u|g c|g c b|now]; cbn [serve]; unfold after.
  - destruct (find (by_id_filter g v) (table w)) as [r0|] eqn:E.
    + rewrite (get_or_create_found w g v o r0 E). intros [= <-]. auto.
    + rewrite (get_or_create_fresh w g v o E). intros [= <-].
      cbn [table with_table]. intros Hin. apply in_app_or in Hin.
      destruct Hin as [Hin|[<-|[]]]; [auto|].
      right. exists g, v, o. repeat split. now apply find_no_record.
  - rewrite get_by_id_eq. intros [= <-]. auto.
  - rewrite get_by_owner_id_eq. intros [= <-]. auto.
  - destruct (find (by_id_filter g c) (table w)) as [r0|] eqn:E.
    + rewrite (delete_found w g c r0 E). intros [= <-].
      cbn [table with_table]. intros Hin. apply filter_In in Hin.
      left. apply Same. tauto.
    + rewrite (delete_missing w g c E). intros [= <-]. auto.
  - destruct (find (by_id_filter g c) (table w)) as [r0|] eqn:E.
    + rewrite (handle_found w g c b r0 E). intros [= <-].
      cbn [table with_table]. intros Hin. apply in_map_iff in Hin.
      destruct Hin as (x & <- & Hx). left. exists x.
      destruct (stamp_only_left_time g c (left_time w b) x) as (Hg & Hc & Ho & _).
      unfold primary_key. now rewrite Hg, Hc, Ho.
    + rewrite (handle_missing w g c b E). intros [= <-]. auto.
  - intros [= <-]. cbn [table]. auto.
Qed.

Lemma ownership_fixed_witness :
  (exists r, In r (table sample_store)
             /\ primary_key r = (1, 200) /\ owner_id r = 42)
  \/ (exists g v o, OwnerLeft 1 200 false = GetOrCreate g v o
                    /\ no_record_at sample_store g v
                    /\ mkTemporaryVoiceChannel 1 200 42 None
                       = mkTemporaryVoiceChannel g v o None).
Proof.
  apply (ownership_fixed (OwnerLeft 1 200 false) sample_store
           (mkWorld [sample_row;
                     mkTemporaryVoiceChannel 1 200 42 None;
                     mkTemporaryVoiceChannel 2 100 7 None]
                    1700000000000000)
           (mkTemporaryVoiceChannel 1 200 42 None)).
  - reflexivity.
  - cbn. tauto.
Defined.

Lemma filter_map_commute (p : TemporaryVoiceChannel -> bool)
      (u : TemporaryVoiceChannel -> TemporaryVoiceChannel)
      (t : list TemporaryVoiceChannel) :
  (forall x, p (u x) = p x) ->
  filter p (map u t) = map u (filter p t).
Proof.
  intros H. induction t as [|x t IH]; [reflexivity|].
  cbn. rewrite H. destruct (p x); cbn; now rewrite IH.
Qed.



Lemma stamp_stamp (g c : Z) (t1 t2 : option datetime) (x : TemporaryVoiceChannel) :
  stamp g c t2 (stamp g c t1 x) = stamp g c t2 x.
Proof.
  unfold stamp at 2. destruct (by_id_filter g c x) eqn:F; [|reflexivity].
  unfold stamp. rewrite F.
  change (by_id_filter g c (setattr x (Set_owner_left_time t1)))
    with (by_id_filter g c x).
  now rewrite F.
Qed.


(** X9. Keys are independent: the owner-left update at one key and a delete
    at another key commute; in either order both calls return the same
    values and end in the same store. *)
Theorem stamp_delete_commute (w : World) (g c : Z) (owner_left : bool) (g' c' : Z) :
  (g', c') <> (g, c) ->
  exists res d w1 w2 w3,
    handle_owner_left_time g c owner_left w = Ok (res, w1)
    /\ delete_temporary_voice_channel g' c' w1 = Ok (d, w2)
    /\ delete_temporary_voice_channel g' c' w = Ok (d, w3)
    /\ handle_owner_left_time g c owner_left w3 = Ok (res, w2).
Proof.
  intros Hk.
  assert (Hk' : (g, c) <> (g', c')) by congruence.
  set (gone := fun x => negb (by_id_filter g' c' x)).
  assert (Keep : find (by_id_filter g c) (filter gone (table w))
                 = find (by_id_filter g c) (table w)).
  { apply find_filter_keep. intros x. now apply other_key. }
  destruct (find (by_id_filter g c) (table w)) as [r|] eqn:Eh;
    destruct (find (by_id_filter g' c') (table w)) as [r2|] eqn:Ed.
  - set (t1 := map (stamp g c (left_time w owner_left)) (table w)).
    assert (Ed1 : find (by_id_filter g' c') (table (with_table w t1))
                  = Some (stamp g c (left_time w owner_left) r2)).
    { cbn [table with_table]. unfold t1.
      rewrite find_map_stable by (intros x; apply stamp_key).
      now rewrite Ed. }
    eexists _, true, _, _, _.
    split; [exact (handle_found w g c owner_left r Eh)|].
    split; [exact (delete_found (with_table w t1) g' c' _ Ed1)|].
    split; [exact (delete_found w g' c' r2 Ed)|].
    refine (eq_trans (handle_found (with_table w (filter gone (table w)))
                        g c owner_left r Keep) _).
    cbn [table with_table clock]. unfold t1.
    rewrite (filter_map_commute gone) by
      (intros x; unfold gone; now rewrite stamp_key).
    reflexivity.
  - set (t1 := map (stamp g c (left_time w owner_left)) (table w)).
    assert (Ed1 : find (by_id_filter g' c') (table (with_table w t1)) = None).
    { cbn [table with_table]. unfold t1.
      rewrite find_map_stable by (intros x; apply stamp_key).
      now rewrite Ed. }
    eexists _, false, _, _, w.
    split; [exact (handle_found w g c owner_left r Eh)|].
    split; [exact (delete_missing (with_table w t1) g' c' Ed1)|].
    split; [exact (delete_missing w g' c' Ed)|].
    exact (handle_found w g c owner_left r Eh).
  - eexists None, true, w, _, _.
    split; [exact (handle_missing w g c owner_left Eh)|].
    split; [exact (delete_found w g' c' r2 Ed)|].
    split; [exact (delete_found w g' c' r2 Ed)|].
    exact (handle_missing (with_table w (filter gone (table w)))
             g c owner_left Keep).
  - exists None, false, w, w, w.
    split; [exact (handle_missing w g c owner_left Eh)|].
    split; [exact (delete_missing w g' c' Ed)|].
    split; [exact (delete_missing w g' c' Ed)|].
    exact (handle_missing w g c owner_left Eh).
Qed.

Lemma stamp_delete_commute_witness :
  exists res d w1 w2 w3,
    handle_owner_left_time 1 100 true sample_store = Ok (res, w1)
    /\ delete_temporary_voice_channel 2 100 w1 = Ok (d, w2)
    /\ delete_temporary_voice_channel 2 100 sample_store = Ok (d, w3)
    /\ handle_owner_left_time 1 100 true w3 = Ok (res, w2).
Proof.
  apply (stamp_delete_commute sample_store 1 100 true 2 100).
  discriminate.
Defined.

(** X11. Clearing what is already clear writes nothing: in a well-formed
    store whose record at [(g, c)] has a null left-time, reporting the
    owner back returns that record and leaves the store exactly as it was. *)
Theorem clear_when_clear (w : World) (g c : Z) (r : TemporaryVoiceChannel) :
  unique_keys w -> record_at w g c r -> owner_left_time r = None ->
  handle_owner_left_time g c false w = Ok (Some r, w).
Proof.
  intros U Hr Hnull. pose proof (record_find w g c r U Hr) as E.
  rewrite (handle_found w g c false r E). cbn [left_time].
  assert (Same : setattr r (Set_owner_left_time None) = r)
    by (destruct r; cbn in *; now subst).
  rewrite Same. do 2 f_equal.
  transitivity (with_table w (table w)); [f_equal | apply with_table_same].
  transitivity (map (fun x => x) (table w)); [|apply map_id].
  apply map_ext_in. intros x Hx. unfold stamp.
  destruct (by_id_filter g c x) eqn:F; [|reflexivity].
  assert (Ex : find (by_id_filter g c) (table w) = Some x)
    by (apply find_the_one; [apply U | exact Hx | exact F]).
  assert (x = r) by congruence. now subst.
Qed.

Lemma clear_when_clear_witness :
  handle_owner_left_time 1 100 false sample_store = Ok (Some sample_row, sample_store).
Proof.
  apply (clear_when_clear sample_store 1 100 sample_row).
  - apply keys_distinct_sound. reflexivity.
  - repeat split. now left.
  - reflexivity.
Defined.

(** X12. The last report wins: two owner-left updates at the same key, one
    right after the other, return and leave what the second one alone
    would have, whatever the first one wrote. *)
Theorem last_report_wins (w : World) (g c : Z) (first second : bool) :
  exists res1 w1 res2 w2,
    handle_owner_left_time g c first w = Ok (res1, w1)
    /\ handle_owner_left_time g c second w1 = Ok (res2, w2)
    /\ handle_owner_left_time g c second w = Ok (res2, w2).
Proof.
  destruct (find (by_id_filter g c) (table w)) as [r|] eqn:E.
  - set (w1 := with_table w (map (stamp g c (left_time w first)) (table w))).
    assert (E1 : find (by_id_filter g c) (table w1)
                 = Some (setattr r (Set_owner_left_time (left_time w first))))
      by exact (find_after_stamp w g c _ r E).
    eexists _, w1, _, _.
    split; [exact (handle_found w g c first r E)|].
    split; [exact (handle_found w1 g c second _ E1)|].
    rewrite (handle_found w g c second r E).
    change (left_time w1 second) with (left_time w second).
    subst w1. cbn [table with_table clock].
    rewrite map_map.
    rewrite (map_ext (fun x => stamp g c (left_time w second)
                                 (stamp g c (left_time w first) x))
                     (stamp g c (left_time w second)))
      by (intros x; apply stamp_stamp).
    reflexivity.
  - exists None, w, None, w.
    repeat split; now apply handle_missing.
Qed.

(** X13. Create, then look up by owner: when no stored record has owner
    [o] and none is stored at [(g, v)], get-or-create with owner [o]
    returns a record that the lookup by owner [o] returns right after. *)
Theorem owner_lookup_after_create (w : World) (g v o : Z) :
  (forall x, In x (table w) -> owner_id x <> o) ->
  no_record_at w g v ->
  exists r w',
    get_or_create_temporary_voice_channel g v o w = Ok (r, w')
    /\ owner_id r = o
    /\ get_temporary_voice_channel_by_owner_id o w' = Ok (Some r, w').
Proof.
  intros Hown Hno. apply no_record_find in Hno.
  eexists _, _. split; [exact (get_or_create_fresh w g v o Hno)|].
  split; [reflexivity|].
  rewrite get_by_owner_id_eq. cbn [table with_table].
  rewrite find_app_one; [reflexivity | |].
  - apply find_absent. intros x Hx. apply Z.eqb_neq. now apply Hown.
  - apply Z.eqb_refl.
Qed.

Lemma owner_lookup_after_create_witness :
  exists r w',
    get_or_create_temporary_voice_channel 3 100 5 sample_store = Ok (r, w')
    /\ owner_id r = 5
    /\ get_temporary_voice_channel_by_owner_id 5 w' = Ok (Some r, w').
Proof.
  apply (owner_lookup_after_create sample_store 3 100 5).
  - intros x Hx. cbn in Hx.
    destruct Hx as [<-|[<-|[<-|[]]]]; cbn; lia.
  - apply find_no_record. reflexivity.
Defined.

(** X14. A deleted channel is not found by owner either: after a delete at
    [(g, c)], whatever it returned, no lookup by owner returns a record
    with that key. *)
Theorem owner_lookup_after_delete (w : World) (g c : Z) :
  exists b w',
    delete_temporary_voice_channel g c w = Ok (b, w')
    /\ (forall u found,
          get_temporary_voice_channel_by_owner_id u w' = Ok (Some found, w') ->
          primary_key found <> (g, c)).
Proof.
  assert (Gone : forall t u found,
             find (by_id_filter g c) t = None ->
             find (by_owner_filter u) t = Some found ->
             primary_key found <> (g, c)).
  { intros t u found Hnone Hfound Hk.
    apply find_some in Hfound. destruct Hfound as [Hin _].
    apply find_none with (x := found) in Hnone; [|exact Hin].
    apply by_id_filter_false in Hnone. apply Hnone.
    unfold primary_key in Hk. now injection Hk. }
  destruct (find (by_id_filter g c) (table w)) as [r|] eqn:E.
  - eexists _, _. split; [exact (delete_found w g c r E)|].
    intros u found. rewrite get_by_owner_id_eq. cbn [table with_table].
    intros [= Hf]. eapply Gone; [apply find_filter_negb | exact Hf].
  - exists false, w. split; [now apply delete_missing|].
    intros u found. rewrite get_by_owner_id_eq.
    intros [= Hf]. eapply Gone; [exact E | exact Hf].
Qed.

Lemma owner_lookup_after_delete_witness :
  exists b w' found,
    delete_temporary_voice_channel 1 100 sample_store = Ok (b, w')
    /\ get_temporary_voice_channel_by_owner_id 42 w' = Ok (Some found, w')
    /\ primary_key found <> (1, 100).
Proof.
  destruct (owner_lookup_after_delete sample_store 1 100) as (b & w' & E & H).
  vm_compute in E. injection E as <- <-.
  eexists _, _, _. split; [reflexivity|].
  split; [vm_compute; reflexivity|].
  apply (H 42). vm_compute. reflexivity.
Defined.
